(** * Cosa/Event.hh: event record, dispatch and push

    A shallow embedding of [class Event] of the Arduino Che Cosa project
    (src/Cosa/Event.hh).  Fixed-width integers are integers of [Z] with
    the conversions of the C++ code written out; pointers are addresses
    in [Z] with [0] the null pointer; member functions pass the receiver
    [*this] and the program state explicitly. *)

From Stdlib Require Import ZArith List Lia.
From stdpp Require Import base decidable option numbers list.

Local Open Scope Z_scope.

(** ** Fixed-width integers (Cosa/Types.h, <stdint.h>) *)

Module Ints.

(** Conversion to an unsigned type of [bits] bits: reduction modulo
    [2^bits]. *)
Definition to_unsigned (bits z : Z) : Z := z mod 2 ^ bits.

(** Conversion to a signed type of [bits] bits, two's complement, as
    avr-gcc (and every gcc target) defines it. *)
Definition to_signed (bits z : Z) : Z :=
  (z + 2 ^ (bits - 1)) mod 2 ^ bits - 2 ^ (bits - 1).

Definition to_uint8 : Z -> Z := to_unsigned 8.
Definition to_int8 : Z -> Z := to_signed 8.
Definition to_uint16 : Z -> Z := to_unsigned 16.

Definition is_uint8 (z : Z) : Prop := 0 <= z < 256.
Definition is_int8 (z : Z) : Prop := -128 <= z < 128.
Definition is_uint16 (z : Z) : Prop := 0 <= z < 65536.

(** [(uint16_t) p] for a pointer [p]: the low 16 bits of the address. *)
Definition uint16_of_ptr (p : Z) : Z := Z.land p 0xFFFF.

(** [(void* ) v] for an unsigned [v], on a platform whose pointers have
    [ptr_bits] bits: the address [v], cut to the pointer width. *)
Definition ptr_of_uint (ptr_bits v : Z) : Z := to_unsigned ptr_bits v.

End Ints.
Import Ints.

(** ** Event types (the anonymous enum of [class Event]) *)

Module EventType.

(** The enumerators, in the order of the source. *)
Inductive enumerator : Set :=
| NULL_TYPE
| FALLING_TYPE | RISING_TYPE | CHANGE_TYPE
| SAMPLE_REQUEST_TYPE | SAMPLE_COMPLETED_TYPE
| WATCHDOG_TYPE | TIMEOUT_TYPE
| BEGIN_TYPE | END_TYPE
| RUN_TYPE
| CONNECT_TYPE | DISCONNECT_TYPE
| RECEIVE_REQUEST_TYPE | RECEIVE_COMPLETED_TYPE
| SEND_REQUEST_TYPE | SEND_COMPLETED_TYPE
| OPEN_TYPE | CLOSE_TYPE
| READ_REQUEST_TYPE | READ_COMPLETED_TYPE
| WRITE_REQUEST_TYPE | WRITE_COMPLETED_TYPE
| COMMAND_REQUEST_TYPE | COMMAND_COMPLETED_TYPE
| SERVICE_REQUEST_TYPE | SERVICE_RESPONSE_TYPE
| USER_TYPE
| ERROR_TYPE.

#[global] Instance enumerator_eq_dec : EqDecision enumerator.
Proof. solve_decision. Defined.

(** The enumerator list as declared: an enumerator with its initializer,
    when it has one. *)
Definition declaration : list (enumerator * option Z) :=
  [ (NULL_TYPE, Some 0);
    (FALLING_TYPE, None); (RISING_TYPE, None); (CHANGE_TYPE, None);
    (SAMPLE_REQUEST_TYPE, None); (SAMPLE_COMPLETED_TYPE, None);
    (WATCHDOG_TYPE, None); (TIMEOUT_TYPE, None);
    (BEGIN_TYPE, None); (END_TYPE, None);
    (RUN_TYPE, None);
    (CONNECT_TYPE, None); (DISCONNECT_TYPE, None);
    (RECEIVE_REQUEST_TYPE, None); (RECEIVE_COMPLETED_TYPE, None);
    (SEND_REQUEST_TYPE, None); (SEND_COMPLETED_TYPE, None);
    (OPEN_TYPE, None); (CLOSE_TYPE, None);
    (READ_REQUEST_TYPE, None); (READ_COMPLETED_TYPE, None);
    (WRITE_REQUEST_TYPE, None); (WRITE_COMPLETED_TYPE, None);
    (COMMAND_REQUEST_TYPE, None); (COMMAND_COMPLETED_TYPE, None);
    (SERVICE_REQUEST_TYPE, None); (SERVICE_RESPONSE_TYPE, None);
    (USER_TYPE, Some 64);
    (ERROR_TYPE, Some 255) ].

(** The values C++ gives to the enumerators: the initializer when there
    is one, otherwise the value of the previous enumerator plus one
    ([next] is the value an enumerator without initializer gets). *)
Fixpoint number (next : Z) (ds : list (enumerator * option Z)) : list (enumerator * Z) :=
  match ds with
  | [] => []
  | (x, init) :: ds' =>
      let v := default next init in (x, v) :: number (v + 1) ds'
  end.

Definition table : list (enumerator * Z) := number 0 declaration.

(** The value of an enumerator. *)
Definition code (x : enumerator) : Z :=
  match List.find (fun p => bool_decide (fst p = x)) table with
  | Some p => snd p
  | None => 0
  end.

(** The enumerators the source groups as framework types: digital and
    analog pins, watchdog and timers, state machines, threads, device
    drivers, protocol stacks, storage and servers. *)
Definition framework_reserved (x : enumerator) : bool :=
  match x with
  | NULL_TYPE | USER_TYPE | ERROR_TYPE => false
  | _ => true
  end.

(** The codes the source leaves to applications: "User defined
    events/messages, 64-254". *)
Definition user_defined (c : Z) : bool := (code USER_TYPE <=? c) && (c <? code ERROR_TYPE).

End EventType.
Import EventType.

(** ** The bounded queue (Cosa/Queue.hh)

    Event.hh includes Cosa/Queue.hh and uses [Queue::enqueue]; the class
    itself is declared elsewhere.  The definitions of this module follow
    the description of the queue: a circular buffer of fixed capacity
    with a read position, a write position and an occupancy count. *)

Module Queue.

Section Members.
Context {A : Type}.

(** Modelled from the spec: class Queue of Cosa/Queue.hh, "a single
    bounded circular buffer of Event records with a statically fixed
    capacity", with the read and write positions and the occupancy
    count. *)
Record Queue : Type := mkQueue {
  capacity : Z;
  count : Z;
  rpos : Z;
  wpos : Z;
  slots : list A
}.

(** Modelled from the spec: the constructor of Queue of Cosa/Queue.hh;
    the buffer has [nmemb] slots, none of them in use ([fill] is what
    the unused storage holds). *)
Definition create (nmemb : Z) (fill : A) : Queue :=
  {| capacity := nmemb; count := 0; rpos := 0; wpos := 0;
     slots := replicate (Z.to_nat nmemb) fill |}.

(** Modelled from the spec: Queue::available of Cosa/Queue.hh, one of the
    "pure queries over occupancy count": the number of buffered
    elements. *)
Definition available (q : Queue) : Z := count q.

(** Modelled from the spec: Queue::is_full of Cosa/Queue.hh, a pure query
    over the occupancy count: the count has reached the capacity. *)
Definition is_full (q : Queue) : bool := capacity q <=? count q.

(** Modelled from the spec: Queue::is_empty of Cosa/Queue.hh, a pure
    query over the occupancy count: the count is zero. *)
Definition is_empty (q : Queue) : bool := count q =? 0.

(** Modelled from the spec: Queue::enqueue of Cosa/Queue.hh, "copies the
    given Event into the next free slot if the queue is not full;
    advances the write position; returns success/failure"; the count
    goes to count+1, guarded by count<capacity. *)
Definition enqueue (x : A) (q : Queue) : bool * Queue :=
  if count q <? capacity q then
    (true,
     {| capacity := capacity q;
        count := count q + 1;
        rpos := rpos q;
        wpos := (wpos q + 1) mod capacity q;
        slots := <[Z.to_nat (wpos q) := x]> (slots q) |})
  else (false, q).

(** Modelled from the spec: Queue::dequeue of Cosa/Queue.hh, "if the
    queue is non-empty, copies the oldest buffered Event out, advances
    the read position, decrements occupancy, returns success; otherwise
    returns failure and leaves the output untouched".  [out] is the
    object the caller passes to receive the element; the result has the
    object after the call. *)
Definition dequeue (out : A) (q : Queue) : bool * A * Queue :=
  if 0 <? count q then
    (true,
     default out (slots q !! Z.to_nat (rpos q)),
     {| capacity := capacity q;
        count := count q - 1;
        rpos := (rpos q + 1) mod capacity q;
        wpos := wpos q;
        slots := slots q |})
  else (false, out, q).

(** The buffered elements, oldest first: the [count] slots from the read
    position on, around the end of the buffer. *)
Definition pending (q : Queue) : list A :=
  omap (fun i => slots q !! Z.to_nat ((rpos q + i) mod capacity q))
       (seqZ 0 (count q)).

(** The operations that change a queue. *)
Inductive op : Type :=
| Enqueue (x : A)
| Dequeue (out : A).

Definition step (q : Queue) (o : op) : Queue :=
  match o with
  | Enqueue x => snd (enqueue x q)
  | Dequeue out => snd (dequeue out q)
  end.

(** The queue after a sequence of operations, the first of the list
    first. *)
Definition run (ops : list op) (q : Queue) : Queue := fold_left step ops q.

(** The queues a program can get to from [q0]: [q0] itself and what an
    operation makes of a queue it can get to. *)
Inductive reachable (q0 : Queue) : Queue -> Prop :=
| reach_init : reachable q0 q0
| reach_step (q : Queue) (o : op) : reachable q0 q -> reachable q0 (step q o).

(** The representation invariant of the circular buffer. *)
Record wf (q : Queue) : Prop := mkWf {
  wf_capacity : 0 < capacity q;
  wf_slots : Z.of_nat (length (slots q)) = capacity q;
  wf_count : 0 <= count q <= capacity q;
  wf_rpos : 0 <= rpos q < capacity q;
  wf_wpos : wpos q = (rpos q + count q) mod capacity q
}.

End Members.

Arguments Queue A : clear implicits.
Arguments op A : clear implicits.

End Queue.

(** ** class Event *)

(** The data members of an Event: [uint8_t m_type], [Handler* m_target]
    and [uint16_t m_value]. *)
Record Event : Set := mkEvent {
  m_type : Z;
  m_target : Z;
  m_value : Z
}.

#[global] Instance Event_eq_dec : EqDecision Event.
Proof. solve_decision. Defined.

(** [static const uint8_t QUEUE_MAX = 16]. *)
Definition QUEUE_MAX : Z := 16.

(** The null pointer. *)
Definition null : Z := 0.

(** One call of [on_event]: the object it is called on and its two
    arguments. *)
Record Call : Set := mkCall {
  callee : Z;
  arg_type : Z;
  arg_value : Z
}.

Section EventClass.

(** [Q] is the type of the queue and [enqueue] its enqueue operation;
    [S] is the data the handlers of the program work on. *)
Variable Q : Type.
Variable enqueue : Event -> Q -> bool * Q.
Variable S : Type.

(** [class Handler]: the root class of the event handlers, with the
    virtual member function [on_event(type, value)]. *)
Record Handler : Type := mkHandler {
  on_event : Z -> Z -> S -> S
}.

(** [Handler::on_event] of the root class: the empty body. *)
Definition Handler_on_event (type value : Z) (s : S) : S := s.

Definition Handler_root : Handler := {| on_event := Handler_on_event |}.

(** The objects a [Handler*] points to: the object at an address, with
    the [on_event] its class defines. *)
Variable objects : Z -> Handler.

(** The state of the program: the process-wide [Event::queue], the data
    of the handlers, and the calls of [on_event] made so far (the oldest
    first). *)
Record State : Type := mkState {
  queue : Q;
  heap : S;
  calls : list Call
}.

Definition set_queue (q : Q) (st : State) : State :=
  {| queue := q; heap := heap st; calls := calls st |}.

(** The result of a member function: what it returns, the receiver
    [*this] after the call and the state after the call. *)
Record Outcome (R : Type) : Type := mkOutcome {
  ret : R;
  this_after : Event;
  state_after : State
}.
Arguments mkOutcome {R} _ _ _.
Arguments ret {R} _.
Arguments this_after {R} _.
Arguments state_after {R} _.

(** [Event(int8_t type = NULL_TYPE, Handler* target = 0, uint16_t value = 0)]:
    the member initializers convert [type] to the [uint8_t] of [m_type]
    and copy the other two. *)
Definition Event_ctor (type target value : Z) (st : State) : Event * State :=
  ({| m_type := to_uint8 type; m_target := target; m_value := value |}, st).

(** The constructor called with the default arguments. *)
Definition Event_default (st : State) : Event * State :=
  Event_ctor (to_int8 (code NULL_TYPE)) null 0 st.

(** [int get_type()]: [m_type], promoted to [int]. *)
Definition get_type (this : Event) (st : State) : Outcome Z :=
  mkOutcome (m_type this) this st.

(** [Handler* get_target()]. *)
Definition get_target (this : Event) (st : State) : Outcome Z :=
  mkOutcome (m_target this) this st.

(** [uint16_t get_value()]. *)
Definition get_value (this : Event) (st : State) : Outcome Z :=
  mkOutcome (m_value this) this st.

(** [void* get_env()]: [(void* ) m_value], on a platform with pointers of
    [ptr_bits] bits. *)
Definition get_env (ptr_bits : Z) (this : Event) (st : State) : Outcome Z :=
  mkOutcome (ptr_of_uint ptr_bits (m_value this)) this st.

(** The virtual call [target->on_event(type, value)]: the [on_event] of
    the object at [target] runs on the data of the handlers; the call is
    recorded. *)
Definition call_on_event (target type value : Z) (st : State) : State :=
  {| queue := queue st;
     heap := on_event (objects target) type value (heap st);
     calls := calls st ++ [mkCall target type value] |}.

(** [void dispatch()]:
    [if (m_target != 0) m_target->on_event(m_type, m_value);] *)
Definition dispatch (this : Event) (st : State) : Outcome unit :=
  if negb (m_target this =? 0) then
    mkOutcome tt this (call_on_event (m_target this) (m_type this) (m_value this) st)
  else
    mkOutcome tt this st.

(** [queue.enqueue(&event)] on the process-wide queue. *)
Definition queue_enqueue (event : Event) (st : State) : bool * State :=
  let '(ok, q) := enqueue event (queue st) in (ok, set_queue q st).

(** [static bool push(uint8_t type, Handler* target, uint16_t value = 0)]:
    [Event event(type, target, value); return (queue.enqueue(&event));]
    The argument of the constructor is the [uint8_t type] converted to
    the [int8_t] of its parameter. *)
Definition push (type target value : Z) (st : State) : bool * State :=
  let '(event, st1) := Event_ctor (to_int8 type) target value st in
  queue_enqueue event st1.

(** [static bool push(uint8_t type, Handler* target, void* env)]:
    [return (push(type, target, (uint16_t) env));] *)
Definition push_env (type target env : Z) (st : State) : bool * State :=
  push type target (uint16_of_ptr env) st.

End EventClass.

Arguments mkHandler {S} _.
Arguments on_event {S} _ _ _ _.
Arguments Handler_on_event {S} _ _ _.
Arguments Handler_root {S}.
Arguments mkState {Q S} _ _ _.
Arguments queue {Q S} _.
Arguments heap {Q S} _.
Arguments calls {Q S} _.
Arguments set_queue {Q S} _ _.
Arguments mkOutcome {Q S R} _ _ _.
Arguments ret {Q S R} _.
Arguments this_after {Q S R} _.
Arguments state_after {Q S R} _.
Arguments Event_ctor {Q S} _ _ _ _.
Arguments Event_default {Q S} _.
Arguments get_type {Q S} _ _.
Arguments get_target {Q S} _ _.
Arguments get_value {Q S} _ _.
Arguments get_env {Q S} _ _ _.
Arguments call_on_event {Q S} _ _ _ _ _.
Arguments dispatch {Q S} _ _ _.
Arguments queue_enqueue {Q} _ {S} _ _.
Arguments push {Q} _ {S} _ _ _ _.
Arguments push_env {Q} _ {S} _ _ _ _.

(** ** The program: [Event::queue] *)

(** The storage of an unused slot: static storage, all bytes zero. *)
Definition zero_event : Event := {| m_type := 0; m_target := 0; m_value := 0 |}.

(** Modelled from the spec: the definition of the static member
    [Event::queue], "a single bounded circular buffer of Event records
    with a statically fixed capacity (16 in the source system)"; the
    header only declares it ([static Queue queue], "Event queue of size
    QUEUE_MAX"). *)
Definition Event_queue : Queue.Queue Event := Queue.create QUEUE_MAX zero_event.

(** The state in which a program starts: the empty queue and no call
    made. *)
Definition boot {S : Type} (s : S) : State (Queue.Queue Event) S :=
  mkState Event_queue s [].

(** ** A program with one handler *)

(** A handler that keeps the pairs it receives, the latest first. *)
Definition recorder : Handler (list (Z * Z)) :=
  mkHandler (fun type value s => (type, value) :: s).

(** The recorder is the object at address 0x100; every other address
    holds an object of the root class. *)
Definition one_recorder (target : Z) : Handler (list (Z * Z)) :=
  if target =? 0x100 then recorder else Handler_root.

(** Pushes of the values [from], [from+1], ... with the given type and
    target, one after the other; the results of the pushes, the first
    first, and the state after them. *)
Fixpoint push_values {S : Type} (type target from : Z) (n : nat)
    (st : State (Queue.Queue Event) S) : list bool * State (Queue.Queue Event) S :=
  match n with
  | O => ([], st)
  | Datatypes.S n' =>
      let '(ok, st1) := push Queue.enqueue type target from st in
      let '(oks, st2) := push_values type target (from + 1) n' st1 in
      (ok :: oks, st2)
  end.

(** Dequeues into a local event, one after the other; the events taken
    out and the results, the first first. *)
Fixpoint take_events (n : nat) (q : Queue.Queue Event) : list (bool * Event) * Queue.Queue Event :=
  match n with
  | O => ([], q)
  | Datatypes.S n' =>
      let '(ok, e, q1) := Queue.dequeue zero_event q in
      let '(rest, q2) := take_events n' q1 in
      ((ok, e) :: rest, q2)
  end.

(** ** Dispatch of several events *)

(** The call [dispatch] makes for an event. *)
Definition call_of (e : Event) : Call :=
  mkCall (m_target e) (m_type e) (m_value e).

(** An event has a target when [m_target != 0]. *)
Definition has_target (e : Event) : bool := negb (m_target e =? 0).

(** [e1.dispatch(); e2.dispatch(); ...] for the events of a list, the
    first first, each on the state the one before it left. *)
Fixpoint dispatch_all {Q S : Type} (objects : Z -> Handler S) (es : list Event)
    (st : State Q S) : State Q S :=
  match es with
  | [] => st
  | e :: es' => dispatch_all objects es' (state_after (dispatch objects e st))
  end.

(** What the handlers make of their data when they receive the events of
    a list with a target, the first first. *)
Definition deliver {S : Type} (objects : Z -> Handler S) (es : list Event) (s : S) : S :=
  fold_left
    (fun s e => if has_target e
                then on_event (objects (m_target e)) (m_type e) (m_value e) s
                else s)
    es s.

(** * Properties *)

(** ** Integer conversions *)

Section IntsFacts.

Lemma to_uint8_range z : is_uint8 (to_uint8 z).
Proof.
  unfold is_uint8, to_uint8, to_unsigned.
  pose proof (Z.mod_pos_bound z (2 ^ 8)). lia.
Qed.

Lemma to_int8_range z : is_int8 (to_int8 z).
Proof.
  unfold is_int8, to_int8, to_signed.
  pose proof (Z.mod_pos_bound (z + 2 ^ (8 - 1)) (2 ^ 8)). lia.
Qed.

Lemma to_int8_id z : is_int8 z -> to_int8 z = z.
Proof.
  unfold is_int8, to_int8, to_signed. intros H.
  change (2 ^ (8 - 1)) with 128. change (2 ^ 8) with 256.
  rewrite Z.mod_small; lia.
Qed.

Lemma to_uint8_id z : is_uint8 z -> to_uint8 z = z.
Proof.
  unfold is_uint8, to_uint8, to_unsigned. intros H.
  apply Z.mod_small. lia.
Qed.

(** The narrowing to [int8_t] followed by the conversion to [uint8_t]
    is reduction modulo 256. *)
Lemma to_uint8_to_int8 z : to_uint8 (to_int8 z) = z mod 256.
Proof.
  unfold to_uint8, to_int8, to_unsigned, to_signed.
  change (2 ^ (8 - 1)) with 128. change (2 ^ 8) with 256.
  rewrite Zminus_mod, Zmod_mod, <- Zminus_mod.
  f_equal. lia.
Qed.

Lemma uint8_via_int8 z : is_uint8 z -> to_uint8 (to_int8 z) = z.
Proof.
  intros H. rewrite to_uint8_to_int8. apply Z.mod_small. exact H.
Qed.

(** A type above 127 does not fit the [int8_t] parameter: the
    constructor receives a negative number. *)
Lemma to_int8_high z : 128 <= z < 256 -> to_int8 z = z - 256.
Proof.
  unfold to_int8, to_signed. intros H.
  change (2 ^ (8 - 1)) with 128. change (2 ^ 8) with 256.
  replace (z + 128) with ((z - 128) + 1 * 256) by lia.
  rewrite Z.mod_add by lia. rewrite Z.mod_small; lia.
Qed.

Lemma uint16_of_ptr_mod p : uint16_of_ptr p = p mod 2 ^ 16.
Proof. unfold uint16_of_ptr. apply (Z.land_ones p 16). lia. Qed.

Lemma uint16_of_ptr_range p : is_uint16 (uint16_of_ptr p).
Proof.
  rewrite uint16_of_ptr_mod. unfold is_uint16.
  pose proof (Z.mod_pos_bound p (2 ^ 16)). lia.
Qed.

Lemma ptr_of_uint16_id ptr_bits v :
  16 <= ptr_bits -> is_uint16 v -> ptr_of_uint ptr_bits v = v.
Proof.
  unfold is_uint16, ptr_of_uint, to_unsigned. intros Hb Hv.
  apply Z.mod_small. split; [lia|].
  assert (2 ^ 16 <= 2 ^ ptr_bits) by (apply Z.pow_le_mono_r; lia). lia.
Qed.

End IntsFacts.

(** ** The bounded queue *)

Section QueueFacts.

Import Queue.
Context {A : Type}.
Implicit Types (q : Queue A) (x out fill : A).

(** A position advanced by at most the capacity wraps around at most
    once. *)
Lemma wrap_position (n a b : Z) :
  0 <= a < n -> 0 <= b <= n ->
  (a + b) mod n = if a + b <? n then a + b else a + b - n.
Proof.
  intros Ha Hb. destruct (Z.ltb_spec (a + b) n) as [Hlt|Hge].
  - apply Z.mod_small. lia.
  - transitivity ((a + b - n + 1 * n) mod n); [f_equal; lia|].
    rewrite Z.mod_add by lia. apply Z.mod_small. lia.
Qed.

Lemma omap_ext_in {B C : Type} (f g : B -> option C) (l : list B) :
  (forall b, b ∈ l -> f b = g b) -> omap f l = omap g l.
Proof.
  induction l as [|b l IH]; intros Hfg; [reflexivity|].
  csimpl. rewrite (Hfg b) by (left). rewrite IH; [reflexivity|].
  intros b' Hb'. apply Hfg. right. exact Hb'.
Qed.

Lemma omap_fmap {B B' C : Type} (g : B -> B') (f : B' -> option C) (l : list B) :
  omap f (g <$> l) = omap (fun b => f (g b)) l.
Proof.
  induction l as [|b l IH]; [reflexivity|].
  csimpl. rewrite IH. reflexivity.
Qed.

Lemma omap_length_total {B C : Type} (f : B -> option C) (l : list B) :
  (forall b, b ∈ l -> is_Some (f b)) -> length (omap f l) = length l.
Proof.
  induction l as [|b l IH]; intros Hf; [reflexivity|].
  csimpl. destruct (Hf b) as [c Hc]; [left|]. rewrite Hc. simpl.
  f_equal. apply IH. intros b' Hb'. apply Hf. right. exact Hb'.
Qed.

Lemma create_wf n fill : 0 < n -> wf (create n fill).
Proof.
  intros Hn. constructor; simpl; try lia.
  - rewrite length_replicate. lia.
  - rewrite Z.mod_small; lia.
Qed.

Lemma enqueue_wf x q : wf q -> wf (snd (enqueue x q)).
Proof.
  intros [Hc Hs Hn Hr Hw]. unfold enqueue.
  destruct (Z.ltb_spec (count q) (capacity q)) as [Hlt|Hge]; simpl.
  - constructor; simpl; try lia.
    + rewrite length_insert. exact Hs.
    + rewrite Hw, Zplus_mod_idemp_l. f_equal. lia.
  - constructor; assumption.
Qed.

Lemma dequeue_wf out q : wf q -> wf (snd (dequeue out q)).
Proof.
  intros [Hc Hs Hn Hr Hw]. unfold dequeue.
  destruct (Z.ltb_spec 0 (count q)) as [Hlt|Hge]; simpl.
  - constructor; simpl; try lia.
    + apply Z.mod_pos_bound. lia.
    + rewrite Hw, Zplus_mod_idemp_l. f_equal. lia.
  - constructor; assumption.
Qed.

Lemma step_wf q (o : op A) : wf q -> wf (step q o).
Proof. destruct o; simpl; [apply enqueue_wf | apply dequeue_wf]. Qed.

Lemma run_wf (ops : list (op A)) q : wf q -> wf (run ops q).
Proof.
  unfold run. revert q.
  induction ops as [|o ops IH]; intros q Hq; simpl; [exact Hq|].
  apply IH, step_wf, Hq.
Qed.

(** The capacity never changes. *)
Lemma step_capacity q (o : op A) : capacity (step q o) = capacity q.
Proof.
  destruct o; simpl; unfold enqueue, dequeue.
  - destruct (count q <? capacity q); reflexivity.
  - destruct (0 <? count q); reflexivity.
Qed.

Lemma run_capacity (ops : list (op A)) q : capacity (run ops q) = capacity q.
Proof.
  unfold run. revert q.
  induction ops as [|o ops IH]; intros q; simpl; [reflexivity|].
  rewrite IH. apply step_capacity.
Qed.

Lemma run_snoc (ops : list (op A)) (o : op A) q :
  run (ops ++ [o]) q = step (run ops q) o.
Proof. unfold run. rewrite fold_left_app. reflexivity. Qed.

(** The reachable queues are the ones after a sequence of operations. *)
Lemma reachable_run q0 q : reachable q0 q <-> exists ops, q = run ops q0.
Proof.
  split.
  - induction 1 as [|q o _ [ops ->]].
    + exists []. reflexivity.
    + exists (ops ++ [o]). rewrite run_snoc. reflexivity.
  - intros [ops ->]. induction ops as [|o ops IH] using rev_ind.
    + constructor.
    + rewrite run_snoc. constructor. exact IH.
Qed.

Lemma reachable_wf q0 q : wf q0 -> reachable q0 q -> wf q.
Proof.
  intros H0. induction 1 as [|q o _ IH]; [exact H0|]. apply step_wf, IH.
Qed.

(** Every position the pending elements are read from is a slot of the
    buffer. *)
Lemma pending_slot q i :
  wf q -> is_Some (slots q !! Z.to_nat ((rpos q + i) mod capacity q)).
Proof.
  intros [Hc Hs Hn Hr Hw]. apply lookup_lt_is_Some.
  pose proof (Z.mod_pos_bound (rpos q + i) (capacity q) Hc). lia.
Qed.

(** The occupancy count is the number of buffered elements. *)
Lemma pending_length q : wf q -> Z.of_nat (length (pending q)) = count q.
Proof.
  intros Hq. unfold pending.
  rewrite omap_length_total by (intros; apply pending_slot, Hq).
  rewrite length_seqZ. destruct Hq. lia.
Qed.

Lemma enqueue_full x q : capacity q <= count q -> enqueue x q = (false, q).
Proof.
  intros H. unfold enqueue.
  destruct (Z.ltb_spec (count q) (capacity q)); [lia|reflexivity].
Qed.

Lemma dequeue_empty out q : count q <= 0 -> dequeue out q = (false, out, q).
Proof.
  intros H. unfold dequeue.
  destruct (Z.ltb_spec 0 (count q)); [lia|reflexivity].
Qed.

(** Enqueue on a queue that is not full succeeds and puts the element
    behind the buffered ones. *)
Lemma enqueue_pending x q :
  wf q -> count q < capacity q ->
  fst (enqueue x q) = true /\ pending (snd (enqueue x q)) = pending q ++ [x].
Proof.
  intros Hq Hlt. pose proof Hq as [Hc Hs Hn Hr Hw]. unfold enqueue.
  destruct (Z.ltb_spec (count q) (capacity q)) as [_|?]; [|lia].
  simpl. split; [reflexivity|]. unfold pending; simpl.
  rewrite seqZ_app by lia. rewrite omap_app. f_equal.
  - apply omap_ext_in. intros i Hi. apply elem_of_seqZ in Hi.
    apply list_lookup_insert_ne. rewrite Hw.
    rewrite !wrap_position by lia.
    destruct (Z.ltb_spec (rpos q + count q) (capacity q)),
             (Z.ltb_spec (rpos q + i) (capacity q)); lia.
  - rewrite seqZ_cons by lia. rewrite seqZ_nil by lia. csimpl.
    rewrite Z.add_0_l, <- Hw.
    rewrite list_lookup_insert_eq; [reflexivity|].
    rewrite Hw. pose proof (Z.mod_pos_bound (rpos q + count q) (capacity q) Hc). lia.
Qed.

(** Dequeue on a queue that is not empty succeeds, copies the oldest
    buffered element out and leaves the others. *)
Lemma dequeue_pending out q :
  wf q -> 0 < count q ->
  exists x, dequeue out q = (true, x, snd (dequeue out q))
            /\ pending q = x :: pending (snd (dequeue out q)).
Proof.
  intros Hq Hlt. pose proof Hq as [Hc Hs Hn Hr Hw]. unfold dequeue.
  destruct (Z.ltb_spec 0 (count q)) as [_|?]; [|lia].
  destruct (pending_slot q 0 Hq) as [x Hx].
  rewrite Z.add_0_r, Z.mod_small in Hx by lia.
  exists x. simpl. rewrite Hx. simpl. split; [reflexivity|].
  unfold pending; simpl.
  rewrite (seqZ_cons 0) by lia. csimpl.
  rewrite Z.add_0_r, Z.mod_small by lia. rewrite Hx. f_equal.
  change (Z.succ 0) with (1 + 0). rewrite <- fmap_add_seqZ.
  rewrite <- Z.sub_1_r.
  rewrite omap_fmap. apply omap_ext_in. intros i _.
  rewrite Zplus_mod_idemp_l. do 3 f_equal. lia.
Qed.

End QueueFacts.

(** ** Event types *)

(** C9: the null type is 0, every framework type (pin edge to service
    request and response) has a code strictly between 0 and 64, the user
    defined range starts at [USER_TYPE] = 64 and [ERROR_TYPE] is 255. *)
Theorem event_type_ranges :
  code NULL_TYPE = 0
  /\ (forall x, framework_reserved x = true -> 0 < code x < 64)
  /\ code USER_TYPE = 64
  /\ code ERROR_TYPE = 255
  /\ (forall x, framework_reserved x = true \/ x = NULL_TYPE \/ x = USER_TYPE \/ x = ERROR_TYPE)
  /\ (forall c, user_defined c = true <-> 64 <= c <= 254).
Proof.
  split; [reflexivity|]. split.
  { intros x Hx. destruct x; try discriminate Hx; vm_compute; split; reflexivity. }
  split; [reflexivity|]. split; [reflexivity|]. split.
  { intros x. destruct x; simpl; auto. }
  intros c. unfold user_defined.
  change (code USER_TYPE) with 64. change (code ERROR_TYPE) with 255.
  rewrite andb_true_iff, Z.leb_le, Z.ltb_lt. lia.
Qed.

(** The framework types are numbered from 1 in the order of the
    declaration; the last one is 26. *)
Lemma framework_codes :
  map code [FALLING_TYPE; RISING_TYPE; CHANGE_TYPE; SAMPLE_REQUEST_TYPE;
            SAMPLE_COMPLETED_TYPE; WATCHDOG_TYPE; TIMEOUT_TYPE; BEGIN_TYPE;
            END_TYPE; RUN_TYPE; CONNECT_TYPE; DISCONNECT_TYPE;
            RECEIVE_REQUEST_TYPE; RECEIVE_COMPLETED_TYPE; SEND_REQUEST_TYPE;
            SEND_COMPLETED_TYPE; OPEN_TYPE; CLOSE_TYPE; READ_REQUEST_TYPE;
            READ_COMPLETED_TYPE; WRITE_REQUEST_TYPE; WRITE_COMPLETED_TYPE;
            COMMAND_REQUEST_TYPE; COMMAND_COMPLETED_TYPE;
            SERVICE_REQUEST_TYPE; SERVICE_RESPONSE_TYPE]
  = seqZ 1 26.
Proof. reflexivity. Qed.

(** ** class Event *)

Section EventFacts.

Variable Q : Type.
Variable enqueue : Event -> Q -> bool * Q.
Variable S : Type.
Variable objects : Z -> Handler S.
Implicit Types (st : State Q S) (e : Event) (t h v env : Z).

(** C1: dispatch of an event with a target calls the [on_event] of the
    target once, with the type and the value of the event, and does
    nothing else; dispatch of an event with the null target changes
    nothing. *)
Theorem dispatch_calls_target t h v st :
  h <> null ->
  dispatch objects (mkEvent t h v) st
  = mkOutcome tt (mkEvent t h v)
      {| queue := queue st;
         heap := on_event (objects h) t v (heap st);
         calls := calls st ++ [mkCall h t v] |}
  /\ dispatch objects (mkEvent t null v) st = mkOutcome tt (mkEvent t null v) st.
Proof.
  intros Hh. unfold dispatch, call_on_event, null in *. simpl. split.
  - destruct (Z.eqb_spec h 0) as [Heq|_]; [contradiction|]. reflexivity.
  - reflexivity.
Qed.

(** The calls recorded by a dispatch: one more for a target, none more
    for the null target. *)
Lemma dispatch_call_count e st :
  length (calls (state_after (dispatch objects e st)))
  = (length (calls st) + (if (m_target e =? null)%Z then 0 else 1))%nat.
Proof.
  unfold dispatch, null. destruct (m_target e =? 0); simpl.
  - lia.
  - rewrite length_app. reflexivity.
Qed.

(** C2: push builds the event of the three arguments, enqueues it on
    the process-wide queue and returns what enqueue returns; of the
    state only the queue changes, and only as enqueue changes it. *)
Theorem push_enqueues t h v st :
  is_uint8 t ->
  push enqueue t h v st
  = (fst (enqueue (mkEvent t h v) (queue st)),
     {| queue := snd (enqueue (mkEvent t h v) (queue st));
        heap := heap st;
        calls := calls st |}).
Proof.
  intros Ht. unfold push, Event_ctor, queue_enqueue, set_queue.
  rewrite (uint8_via_int8 t Ht).
  destruct (enqueue _ (queue st)) as [ok q]. reflexivity.
Qed.

(** C4: the accessors of an event constructed with the type code [t],
    the target [h] and the value [v] return [t], [h] and [v], and change
    neither the event nor the state. *)
Theorem accessors_return_fields t h v st :
  is_uint8 t ->
  let e := fst (Event_ctor (to_int8 t) h v st) in
  let st1 := snd (Event_ctor (to_int8 t) h v st) in
  get_type e st1 = mkOutcome t e st
  /\ get_target e st1 = mkOutcome h e st
  /\ get_value e st1 = mkOutcome v e st.
Proof.
  intros Ht. unfold Event_ctor, get_type, get_target, get_value. simpl.
  rewrite (uint8_via_int8 t Ht). auto.
Qed.

(** A type in the range of the [int8_t] parameter is passed on as it is;
    a negative one is read back 256 higher. *)
Lemma get_type_of_int8 a h v st :
  is_int8 a ->
  ret (get_type (fst (Event_ctor a h v st)) st) = if a <? 0 then a + 256 else a.
Proof.
  unfold is_int8, Event_ctor, get_type, to_uint8, to_unsigned. simpl. intros Ha.
  change (2 ^ 8) with 256. destruct (Z.ltb_spec a 0).
  - transitivity ((a + 256 + (-1) * 256) mod 256); [f_equal; lia|].
    rewrite Z.mod_add by lia. apply Z.mod_small. lia.
  - apply Z.mod_small. lia.
Qed.

(** C5: push with an environment pointer is push with the pointer
    reduced modulo 2^16 as the value: the same result and the same
    state. *)
Theorem push_env_narrows t h env st :
  push_env enqueue t h env st = push enqueue t h (env mod 2 ^ 16) st.
Proof. unfold push_env. rewrite uint16_of_ptr_mod. reflexivity. Qed.

(** C6: get_env returns the value of get_value converted to a pointer,
    whatever the value is, and changes neither the event nor the state;
    where pointers have 16 bits or more the address is the value. *)
Theorem get_env_is_value_as_pointer (ptr_bits : Z) e st :
  get_env ptr_bits e st
  = mkOutcome (ptr_of_uint ptr_bits (ret (get_value e st))) e st
  /\ (16 <= ptr_bits -> is_uint16 (m_value e) ->
      ret (get_env ptr_bits e st) = ret (get_value e st)).
Proof.
  split; [reflexivity|]. intros Hb Hv. simpl. apply ptr_of_uint16_id; assumption.
Qed.

(** C7: the constructor returns an event for every argument and leaves
    the state as it is; with the default arguments the event has the
    null type 0, the null target and the value 0. *)
Theorem ctor_pure_and_defaults t h v st :
  Event_ctor t h v st = (mkEvent (to_uint8 t) h v, st)
  /\ Event_default st = (mkEvent (code NULL_TYPE) null 0, st)
  /\ code NULL_TYPE = 0 /\ null = 0.
Proof. repeat split. Qed.

(** C8: get_type, get_target, get_value, get_env and dispatch leave the
    three data members of the event as they are. *)
Theorem event_immutable (ptr_bits : Z) e st :
  this_after (get_type e st) = e
  /\ this_after (get_target e st) = e
  /\ this_after (get_value e st) = e
  /\ this_after (get_env ptr_bits e st) = e
  /\ this_after (dispatch objects e st) = e.
Proof.
  repeat split. unfold dispatch. destruct (negb (m_target e =? 0)); reflexivity.
Qed.

(** C10: for a type byte [t] of 0..255 the event of [Event(t, h, v)] and
    the event push enqueues have get_type equal to [t], although the
    [int8_t] parameter of the constructor receives [t - 256] when [t] is
    above 127. *)
Theorem type_byte_round_trip t h v st :
  is_uint8 t ->
  ret (get_type (fst (Event_ctor (to_int8 t) h v st)) st) = t
  /\ (exists e, push enqueue t h v st = queue_enqueue enqueue e st
                /\ ret (get_type e st) = t)
  /\ to_int8 t = (if 128 <=? t then t - 256 else t).
Proof.
  intros Ht. unfold push, Event_ctor, get_type. simpl.
  rewrite (uint8_via_int8 t Ht). split; [reflexivity|]. split.
  - eexists. split; reflexivity.
  - unfold is_uint8 in Ht. destruct (Z.leb_spec 128 t).
    + apply to_int8_high. lia.
    + apply to_int8_id. unfold is_int8. lia.
Qed.

End EventFacts.

(** ** The process-wide queue *)

Section ProgramFacts.

Import Queue.

Lemma Event_queue_wf : wf Event_queue.
Proof. apply create_wf. reflexivity. Qed.

(** After every sequence of operations from the empty queue the
    capacity is the initial one and the occupancy count, the number of
    buffered events, is within it. *)
Lemma run_bounded (ops : list (op Event)) :
  capacity (run ops Event_queue) = QUEUE_MAX
  /\ Z.of_nat (length (pending (run ops Event_queue))) = available (run ops Event_queue)
  /\ 0 <= available (run ops Event_queue) <= QUEUE_MAX.
Proof.
  pose proof (run_wf ops Event_queue Event_queue_wf) as Hwf.
  pose proof (run_capacity ops Event_queue) as Hcap.
  change (capacity Event_queue) with QUEUE_MAX in Hcap.
  split; [exact Hcap|]. split.
  - apply pending_length, Hwf.
  - unfold available. rewrite <- Hcap. destruct Hwf. lia.
Qed.

(** C3: the process-wide queue has the capacity [QUEUE_MAX] = 16, and
    after every sequence of enqueue and dequeue operations from the
    empty queue the capacity is still 16 and the number of buffered
    events, which is what [available] returns, is at most 16. *)
Theorem queue_never_exceeds_capacity :
  QUEUE_MAX = 16
  /\ capacity Event_queue = QUEUE_MAX
  /\ pending Event_queue = []
  /\ forall ops : list (op Event),
       let q := run ops Event_queue in
       capacity q = QUEUE_MAX
       /\ Z.of_nat (length (pending q)) = available q
       /\ 0 <= available q <= QUEUE_MAX.
Proof.
  split; [reflexivity|]. split; [reflexivity|]. split; [reflexivity|].
  intros ops q. subst q. apply run_bounded.
Qed.

(** The bound, on the step relation. *)
Lemma reachable_bounded (q : Queue Event) :
  reachable Event_queue q ->
  Z.of_nat (length (pending q)) = available q /\ 0 <= available q <= QUEUE_MAX.
Proof.
  intros Hq. apply reachable_run in Hq as [ops ->].
  apply (run_bounded ops).
Qed.

(** What push does to the queue is one enqueue operation; the type of
    the event is the type byte, reduced modulo 256 by the two
    conversions. *)
Lemma push_is_enqueue_step {S : Type} t h v (st : State (Queue Event) S) :
  queue (snd (push enqueue t h v st))
  = step (queue st) (Enqueue (mkEvent (t mod 256) h v)).
Proof.
  unfold push, Event_ctor, queue_enqueue. rewrite to_uint8_to_int8. simpl.
  destruct (enqueue _ (queue st)) as [ok q]. reflexivity.
Qed.

(** A push on the full queue fails and changes nothing. *)
Lemma push_on_full_queue {S : Type} t h v (st : State (Queue Event) S) :
  capacity (queue st) <= count (queue st) ->
  push enqueue t h v st = (false, st).
Proof.
  intros Hfull. unfold push, Event_ctor, queue_enqueue.
  rewrite enqueue_full by exact Hfull. destruct st. reflexivity.
Qed.

End ProgramFacts.

(** ** The program with one handler *)

(** Sixteen pushes of sample requests with the values 0..15 succeed and
    the seventeenth fails; sixteen dequeues return the values in that
    order and the seventeenth fails. *)
Example sixteen_events :
  let '(oks, st) := push_values (code SAMPLE_REQUEST_TYPE) 0x100 0 17 (boot (@nil (Z * Z))) in
  let '(taken, q) := take_events 17 (queue st) in
  oks = replicate 16 true ++ [false]
  /\ Queue.pending (queue st) = map (mkEvent 4 0x100) (seqZ 0 16)
  /\ taken = map (fun v => (true, mkEvent 4 0x100 v)) (seqZ 0 16) ++ [(false, zero_event)]
  /\ Queue.pending q = [].
Proof. vm_compute. repeat split. Qed.

(** [ERROR_TYPE] reaches the constructor as -1 and is stored as 255. *)
Example error_type_event :
  to_int8 (code ERROR_TYPE) = -1
  /\ Queue.pending (queue (snd (push Queue.enqueue (code ERROR_TYPE) 0x100 7 (boot tt))))
     = [mkEvent 255 0x100 7].
Proof. vm_compute. split; reflexivity. Qed.

(** ** The theorems at concrete arguments *)

Lemma dispatch_calls_target_witness :
  0x100 <> null
  /\ dispatch one_recorder (mkEvent 4 0x100 9) (boot [])
     = mkOutcome tt (mkEvent 4 0x100 9)
         {| queue := Event_queue; heap := [(4, 9)]; calls := [mkCall 0x100 4 9] |}
  /\ dispatch one_recorder (mkEvent 4 null 9) (boot [])
     = mkOutcome tt (mkEvent 4 null 9) (boot []).
Proof.
  split; [discriminate|].
  apply (dispatch_calls_target (Queue.Queue Event) (list (Z * Z)) one_recorder
           4 0x100 9 (boot [])).
  discriminate.
Defined.

Lemma push_enqueues_witness :
  is_uint8 255
  /\ push Queue.enqueue 255 0x100 7 (boot tt)
     = (fst (Queue.enqueue (mkEvent 255 0x100 7) Event_queue),
        {| queue := snd (Queue.enqueue (mkEvent 255 0x100 7) Event_queue);
           heap := tt; calls := [] |}).
Proof.
  assert (H : is_uint8 255) by (unfold is_uint8; lia).
  split; [exact H|].
  exact (push_enqueues (Queue.Queue Event) Queue.enqueue unit 255 0x100 7 (boot tt) H).
Defined.

Lemma accessors_return_fields_witness :
  is_uint8 200
  /\ get_type (mkEvent 200 0x100 7) (boot tt) = mkOutcome 200 (mkEvent 200 0x100 7) (boot tt)
  /\ get_target (mkEvent 200 0x100 7) (boot tt) = mkOutcome 0x100 (mkEvent 200 0x100 7) (boot tt)
  /\ get_value (mkEvent 200 0x100 7) (boot tt) = mkOutcome 7 (mkEvent 200 0x100 7) (boot tt).
Proof.
  assert (H : is_uint8 200) by (unfold is_uint8; lia).
  split; [exact H|].
  exact (accessors_return_fields (Queue.Queue Event) unit 200 0x100 7 (boot tt) H).
Defined.

Lemma type_byte_round_trip_witness :
  is_uint8 255
  /\ ret (get_type (fst (Event_ctor (to_int8 255) 0x100 7 (boot tt))) (boot tt)) = 255
  /\ (exists e, push Queue.enqueue 255 0x100 7 (boot tt)
                = queue_enqueue Queue.enqueue e (boot tt)
                /\ ret (get_type e (boot tt)) = 255)
  /\ to_int8 255 = -1.
Proof.
  assert (H : is_uint8 255) by (unfold is_uint8; lia).
  split; [exact H|].
  exact (type_byte_round_trip (Queue.Queue Event) Queue.enqueue unit 255 0x100 7 (boot tt) H).
Defined.

Lemma get_env_is_value_as_pointer_witness :
  16 <= 16 /\ is_uint16 0x2FF
  /\ ret (get_env 16 (mkEvent 4 0x100 0x2FF) (boot tt))
     = ret (get_value (mkEvent 4 0x100 0x2FF) (boot tt)).
Proof.
  assert (H : is_uint16 0x2FF) by (unfold is_uint16; lia).
  split; [lia|]. split; [exact H|].
  apply (proj2 (get_env_is_value_as_pointer (Queue.Queue Event) unit 16
                  (mkEvent 4 0x100 0x2FF) (boot tt))); [lia | exact H].
Defined.

Lemma event_type_ranges_witness :
  framework_reserved SERVICE_RESPONSE_TYPE = true
  /\ 0 < code SERVICE_RESPONSE_TYPE < 64.
Proof.
  split; [reflexivity|].
  apply (proj1 (proj2 event_type_ranges) SERVICE_RESPONSE_TYPE). reflexivity.
Defined.

(** ** More on the event types *)

(** X1: the enumerators have pairwise different codes, and every code
    fits the [uint8_t] of [m_type]. *)
Theorem code_injective_and_byte :
  (forall x y, code x = code y -> x = y)
  /\ (forall x, is_uint8 (code x)).
Proof.
  split.
  - intros x y. destruct x; destruct y; intros H; try reflexivity;
      vm_compute in H; discriminate H.
  - intros x. unfold is_uint8. destruct x; vm_compute; split;
      first [reflexivity | discriminate].
Qed.

(** X2: of the enumerators only [USER_TYPE] has a code in the user
    defined range 64..254. *)
Theorem user_range_is_free (x : enumerator) :
  user_defined (code x) = true <-> x = USER_TYPE.
Proof.
  split.
  - destruct x; intros H; try reflexivity; vm_compute in H; discriminate H.
  - intros ->. reflexivity.
Qed.

Section MoreEventFacts.

Variable Q : Type.
Variable enqueue : Event -> Q -> bool * Q.
Variable S : Type.
Variable objects : Z -> Handler S.
Implicit Types (st : State Q S) (e : Event) (t h v env : Z).

(** X3: of the enumerators only [ERROR_TYPE] is changed by the conversion
    to the [int8_t] parameter of the constructor, and the event
    constructed with any enumerator has that enumerator's code as its
    type. *)
Theorem enumerator_as_type (x : enumerator) h v st :
  (to_int8 (code x) = code x <-> x <> ERROR_TYPE)
  /\ ret (get_type (fst (Event_ctor (to_int8 (code x)) h v st)) st) = code x.
Proof.
  split.
  - split.
    + intros H ->. vm_compute in H. discriminate H.
    + intros H. destruct x; try reflexivity. contradiction.
  - unfold Event_ctor, get_type. simpl. apply uint8_via_int8.
    unfold is_uint8. destruct x; vm_compute; split;
      first [reflexivity | discriminate].
Qed.

(** X4: for every argument in the range of the [int8_t] parameter the
    type get_type returns is in 0..255: the argument itself when it is
    not negative, the argument plus 256 when it is. *)
Theorem get_type_signed_argument a h v st :
  is_int8 a ->
  is_uint8 (ret (get_type (fst (Event_ctor a h v st)) st))
  /\ ret (get_type (fst (Event_ctor a h v st)) st) = (if a <? 0 then a + 256 else a).
Proof.
  intros Ha. split.
  - apply to_uint8_range.
  - apply get_type_of_int8. exact Ha.
Qed.

(** X5: an event whose type is a byte is the event the constructor
    builds from what its accessors return. *)
Theorem rebuild_from_accessors e st :
  is_uint8 (m_type e) ->
  fst (Event_ctor (to_int8 (ret (get_type e st)))
                  (ret (get_target e st))
                  (ret (get_value e st)) st) = e.
Proof.
  intros Ht. unfold Event_ctor, get_type, get_target, get_value. simpl.
  rewrite (uint8_via_int8 _ Ht). destruct e. reflexivity.
Qed.

(** X6: with pointers of 16 bits or more, get_env of the event that push
    with an environment pointer enqueues is the pointer modulo 2^16: the
    pointer itself when it is below 2^16. *)
Theorem push_env_get_env (ptr_bits : Z) t h env st :
  16 <= ptr_bits ->
  exists e,
    push_env enqueue t h env st = queue_enqueue enqueue e st
    /\ ret (get_env ptr_bits e st) = env mod 2 ^ 16
    /\ (0 <= env < 2 ^ 16 -> ret (get_env ptr_bits e st) = env).
Proof.
  intros Hb. eexists. split; [reflexivity|]. simpl.
  rewrite (ptr_of_uint16_id ptr_bits _ Hb (uint16_of_ptr_range env)).
  rewrite uint16_of_ptr_mod. split; [reflexivity|].
  intros Henv. apply Z.mod_small. exact Henv.
Qed.

(** X7: two environment pointers that differ by a multiple of 2^16 give
    the same push. *)
Theorem push_env_aliases t h env (k : Z) st :
  push_env enqueue t h (env + k * 2 ^ 16) st = push_env enqueue t h env st.
Proof.
  unfold push_env. rewrite !uint16_of_ptr_mod.
  rewrite Z.mod_add by lia. reflexivity.
Qed.

Lemma dispatch_state e st :
  state_after (dispatch objects e st)
  = if has_target e
    then call_on_event objects (m_target e) (m_type e) (m_value e) st
    else st.
Proof. unfold dispatch, has_target. destruct (negb _); reflexivity. Qed.

Lemma dispatch_all_app (es1 es2 : list Event) st :
  dispatch_all objects (es1 ++ es2) st
  = dispatch_all objects es2 (dispatch_all objects es1 st).
Proof.
  revert st. induction es1 as [|e es1 IH]; intros st; simpl; [reflexivity|].
  apply IH.
Qed.

(** X8: dispatch of the events of a list calls [on_event] once for each
    event with a target, in the order of the list, with the type and the
    value of that event, and for no other; the data of the handlers is
    what these calls make of it. *)
Theorem dispatch_all_calls (es : list Event) st :
  calls (dispatch_all objects es st)
  = calls st ++ map call_of (List.filter has_target es)
  /\ heap (dispatch_all objects es st) = deliver objects es (heap st).
Proof.
  revert st. induction es as [|e es IH]; intros st; simpl.
  - rewrite app_nil_r. auto.
  - destruct (IH (state_after (dispatch objects e st))) as (Hc & Hh).
    rewrite Hc, Hh, dispatch_state. unfold deliver. simpl.
    destruct (has_target e); simpl; [|auto].
    rewrite <- app_assoc. auto.
Qed.

(** X9: handlers of the root class ignore the events: when every event
    of a list has the null target or an object of the root class as its
    target, dispatch of the list leaves the data of the handlers as it
    is. *)
Theorem root_handlers_ignore_events (es : list Event) st :
  Forall (fun e => m_target e = null \/ objects (m_target e) = Handler_root) es ->
  heap (dispatch_all objects es st) = heap st.
Proof.
  intros Hes. revert st. induction Hes as [|e es He _ IH]; intros st; simpl.
  - reflexivity.
  - rewrite IH, dispatch_state. unfold has_target, null in *.
    destruct (Z.eqb_spec (m_target e) 0) as [Heq|Hne]; simpl; [reflexivity|].
    destruct He as [He|He]; [contradiction|]. rewrite He. reflexivity.
Qed.

End MoreEventFacts.

(** ** These theorems at concrete arguments *)

Lemma get_type_signed_argument_witness :
  is_int8 (-1)
  /\ is_uint8 (ret (get_type (fst (Event_ctor (-1) 0x100 7 (boot tt))) (boot tt)))
  /\ ret (get_type (fst (Event_ctor (-1) 0x100 7 (boot tt))) (boot tt)) = 255.
Proof.
  assert (H : is_int8 (-1)) by (unfold is_int8; lia).
  split; [exact H|].
  exact (get_type_signed_argument (Queue.Queue Event) unit (-1) 0x100 7 (boot tt) H).
Defined.

Lemma rebuild_from_accessors_witness :
  is_uint8 (m_type (mkEvent 255 0x100 7))
  /\ fst (Event_ctor (to_int8 (ret (get_type (mkEvent 255 0x100 7) (boot tt))))
                     (ret (get_target (mkEvent 255 0x100 7) (boot tt)))
                     (ret (get_value (mkEvent 255 0x100 7) (boot tt))) (boot tt))
     = mkEvent 255 0x100 7.
Proof.
  assert (H : is_uint8 (m_type (mkEvent 255 0x100 7))) by (unfold is_uint8; simpl; lia).
  split; [exact H|].
  exact (rebuild_from_accessors (Queue.Queue Event) unit (mkEvent 255 0x100 7) (boot tt) H).
Defined.

Lemma push_env_get_env_witness :
  16 <= 32
  /\ exists e,
       push_env Queue.enqueue 4 0x100 0x12345 (boot tt)
       = queue_enqueue Queue.enqueue e (boot tt)
       /\ ret (get_env 32 e (boot tt)) = 0x2345
       /\ (0 <= 0x12345 < 2 ^ 16 -> ret (get_env 32 e (boot tt)) = 0x12345).
Proof.
  assert (H : 16 <= 32) by lia.
  split; [exact H|].
  exact (push_env_get_env (Queue.Queue Event) Queue.enqueue unit 32 4 0x100 0x12345 (boot tt) H).
Defined.

Lemma root_handlers_ignore_events_witness :
  Forall (fun e => m_target e = null \/ one_recorder (m_target e) = Handler_root)
         [mkEvent 4 null 1; mkEvent 5 0x200 2]
  /\ heap (dispatch_all one_recorder [mkEvent 4 null 1; mkEvent 5 0x200 2] (boot [(1, 1)]))
     = [(1, 1)].
Proof.
  assert (H : Forall (fun e => m_target e = null \/ one_recorder (m_target e) = Handler_root)
                     [mkEvent 4 null 1; mkEvent 5 0x200 2]).
  { constructor; [left; reflexivity|]. constructor; [right; reflexivity|]. constructor. }
  split; [exact H|].
  exact (root_handlers_ignore_events (Queue.Queue Event) (list (Z * Z)) one_recorder
           [mkEvent 4 null 1; mkEvent 5 0x200 2] (boot [(1, 1)]) H).
Defined.

(** The recorder receives the events with it as target in the order of
    the list; the event with the null target is skipped. *)
Example recorder_receives_in_order :
  let st := dispatch_all one_recorder
              [mkEvent 4 0x100 1; mkEvent 5 null 2; mkEvent 6 0x100 3] (boot []) in
  calls st = [mkCall 0x100 4 1; mkCall 0x100 6 3] /\ heap st = [(6, 3); (4, 1)].
Proof. vm_compute. split; reflexivity. Qed.
